(** * rapids-triton: the [Batch] aggregate of [rapids_triton/batch/batch.hpp]

    A shallow embedding of [triton::backend::rapids::Batch] and of the
    collaborators its methods call, followed by the properties of
    [get_input], [get_output], [stream] and [finalize].

    Conventions of the embedding.
    - [std::size_t] values are [N]; every [size_t] multiplication of the
      source is followed by [wrap], reduction modulo [2^64].
    - A method of [Batch] is a computation in the monad [M]: it receives the
      object (and the log of calls made to the outside world) and returns
      either the thrown exception or the returned value, with the object as
      the call left it.  A C++ exception does not roll state back, so the
      state is returned in both cases.
    - The Triton backend API, CUDA and the helper headers that are not part
      of [batch.hpp] are the operations of the class [TritonBackend]. *)

From Stdlib Require Import NArith ZArith List String Bool Lia Permutation.
Import ListNotations.
Local Open Scope N_scope.

(** ** Scalars and handles *)

Definition size_type := N.
Definition SIZE_MODULUS : N := 2 ^ 64.

(** Result of a [std::size_t] operation. *)
Definition wrap (n : N) : size_type := n mod SIZE_MODULUS.

Definition device_id_t := Z.
Definition cudaStream_t := N.
Definition cudaError_t := N.
Definition pointer := N.
Definition nullptr : pointer := 0.

(** [TRITONBACKEND_Request*]: an opaque handle. *)
Definition Request := N.
(** [TRITONBACKEND_Response*]: a nullable handle. *)
Definition Response := option N.

(** Memory spaces ([rapids_triton/memory/types.hpp] aliases Triton's
    [TRITONSERVER_MemoryType]): host, pinned host and device. *)
Inductive MemoryType := HostMemory | PinnedHostMemory | DeviceMemory.

Definition MemoryType_eqb (a b : MemoryType) : bool :=
  match a, b with
  | HostMemory, HostMemory
  | PinnedHostMemory, PinnedHostMemory
  | DeviceMemory, DeviceMemory => true
  | _, _ => false
  end.

(** ** Exceptions

    [batch.hpp] itself throws [TritonException(Error::Internal, msg)].
    [IncompatibleShape], [AllocationFailure] and [ContractViolation] are the
    error kinds that spec 7 names besides; [NullDereference] stands for the
    dereference of a null pointer. *)
Inductive Error := Unknown | Internal | NotFound | InvalidArg | Unavailable.

Inductive Exception :=
| TritonException (code : Error) (msg : string)
| IncompatibleShape (request_index : nat)
| AllocationFailure
| ContractViolation
| NullDereference.

Definition wrong_location : Exception :=
  TritonException Internal "data collected in wrong location".

(** ** Shapes *)

Definition Shape := list size_type.

(** Size of the batch axis, the leading dimension (0 when there is none). *)
Definition batch_dim (s : Shape) : size_type := hd 0 s.
(** The dimensions after the batch axis. *)
Definition non_batch (s : Shape) : Shape := tl s.

Fixpoint shape_eqb (a b : Shape) : bool :=
  match a, b with
  | [], [] => true
  | x :: a', y :: b' => (x =? y) && shape_eqb a' b'
  | _, _ => false
  end.

Definition sum_batch (shapes : list Shape) : size_type :=
  fold_right (fun s acc => batch_dim s + acc) 0 shapes.

(** The exact product of the dimensions. *)
Definition product (shape : Shape) : N := fold_right N.mul 1 shape.

(** [std::reduce(first, last, std::size_t{1}, std::multiplies<>())]. *)
Definition reduce_mul (shape : Shape) : size_type :=
  fold_left (fun acc d => wrap (acc * d)) shape 1.

(** [sizeof(T) * std::reduce(...)] of [get_input] (line 68). *)
Definition size_bytes (sizeof_T : size_type) (shape : Shape) : size_type :=
  wrap (sizeof_T * reduce_mul shape).

(** Modelled from the spec: the mismatch search of [get_triton_input_shape]
    ([rapids_triton/triton/input.hpp] is missing).  Index of the first shape
    (counting from [i]) whose non-batch dimensions differ from [expected]. *)
Fixpoint first_mismatch (expected : Shape) (i : nat) (shapes : list Shape)
  : option nat :=
  match shapes with
  | [] => None
  | s :: rest =>
      if shape_eqb (non_batch s) expected
      then first_mismatch expected (S i) rest
      else Some i
  end.

(** Modelled from the spec: the unification step of
    [get_triton_input_shape] ([rapids_triton/triton/input.hpp] is missing).
    Spec 4.1: input-side resolution sums the batch axis across requests and
    requires all non-batch dimensions to match exactly across requests; a
    mismatch is a fatal incompatible-shapes error naming the offending
    request index. *)
Definition unify_shapes (shapes : list Shape) : Exception + Shape :=
  match shapes with
  | [] => inr []
  | s0 :: _ =>
      match first_mismatch (non_batch s0) 0 shapes with
      | Some i => inl (IncompatibleShape i)
      | None => inr (sum_batch shapes :: non_batch s0)
      end
  end.

(** Map a fallible function over a list, stopping at the first exception. *)
Fixpoint mapE {A B} (f : A -> Exception + B) (l : list A)
  : Exception + list B :=
  match l with
  | [] => inr []
  | a :: l' =>
      match f a with
      | inl e => inl e
      | inr b =>
          match mapE f l' with
          | inl e => inl e
          | inr bs => inr (b :: bs)
          end
      end
  end.

(** ** Buffers and tensors *)

(** Modelled from the spec: [Buffer] ([rapids_triton/memory/buffer.hpp] is
    missing).  Spec 3: a buffer is (memory space, device, length, stream
    affinity) and either aliases externally-owned memory or owns freshly
    allocated memory.  [buffer_device] is the device passed to the
    constructor; the aliasing constructor used by [get_input] is not given
    one. *)
Record Buffer := mkBuffer {
  buffer_data : pointer;
  buffer_owning : bool;
  buffer_size : size_type;
  buffer_memory_type : MemoryType;
  buffer_device : option device_id_t;
  buffer_stream : cudaStream_t
}.

(** [Buffer(T* input_data, size, memory_type, stream)]: non-owning view. *)
Definition Buffer_view (data : pointer) (size : size_type)
    (memory_type : MemoryType) (stream : cudaStream_t) : Buffer :=
  mkBuffer data false size memory_type None stream.

(** Modelled from the spec: [Tensor], a shape paired with a buffer. *)
Record Tensor := mkTensor {
  tensor_shape : Shape;
  tensor_buffer : Buffer
}.

(** Modelled from the spec: [OutputTensor], a tensor that remembers the
    output name; the responder it shares with the batch stays in the batch
    object ([responder_]). *)
Record OutputTensor := mkOutputTensor {
  output_shape : Shape;
  output_buffer : Buffer;
  output_name : string
}.

(** ** Model metadata and instance state (template parameters) *)

Record BatchOutput := { OutputShape : list Z }.

Record ModelState := { FindBatchOutput : string -> option BatchOutput }.

Record ModelInstanceState := {
  TritonMemoryManager : N;
  EnablePinnedInput : bool;
  EnablePinnedOutput : bool;
  get_config_param : string -> Z
}.

(** What [BackendInputCollector::ProcessTensor] writes through its four
    output pointers. *)
Record CollectorReply := {
  raw_buffer : pointer;
  reported_bytes : size_type;
  reported_mem_type : MemoryType;
  reported_device_id : device_id_t
}.

(** Calls that leave the batch object, in program order. *)
Inductive Event :=
| EvProcessTensor (name : string) (size_bytes : size_type)
    (allowed : list (MemoryType * device_id_t))
| EvAllocate (elements : size_type) (memory_type : MemoryType)
    (device : device_id_t)
| EvResponderFinalize
| EvStreamSynchronize (stream : cudaStream_t).

(** ** The outside world

    The serving layer, CUDA and the helper headers.  The collector and the
    responder are constructed with [&responses_]: each of their calls
    receives the response vector of the batch and returns it as the call
    left it. *)
Class TritonBackend := {
  Collector : Type;
  Responder : Type;
  (** [TRITONBACKEND_ResponseNew] *)
  ResponseNew : Request -> Exception + N;
  (** [TRITONBACKEND_RequestInput] and [TRITONBACKEND_InputProperties]:
      the shape of the named input shard of one request. *)
  InputShape : Request -> string -> Exception + Shape;
  BackendInputCollector :
    list Request -> N -> bool -> cudaStream_t -> Collector;
  ProcessTensor :
    Collector -> list Response -> string -> size_type ->
    list (MemoryType * device_id_t) ->
    CollectorReply * Collector * list Response;
  BackendOutputResponder :
    list Request -> Z -> bool -> cudaStream_t -> Responder;
  Finalize : Responder -> list Response -> bool * Responder * list Response;
  cudaStreamSynchronize : cudaStream_t -> cudaError_t;
  (** [cuda_check]: the exception thrown for a CUDA status, if any *)
  cuda_failure : cudaError_t -> option Exception;
  (** [narrow<std::size_t>] of [rapids_triton/utils/narrow.hpp] *)
  narrow : Z -> Exception + size_type;
  (** allocation behind the owning constructor
      [Buffer<T>(size, memory_type, device, stream)] *)
  allocate :
    size_type -> MemoryType -> device_id_t -> cudaStream_t ->
    Exception + pointer
}.

Section BatchModel.
Context {api : TritonBackend}.

(** ** The batch object *)

Record Batch := mkBatch {
  model_state_ : ModelState;
  instance_state_ : ModelInstanceState;
  requests_ : list Request;
  responses_ : list Response;
  collector_ : Collector;
  responder_ : Responder;
  stream_ : cudaStream_t
}.

(** The object a method runs on, with the log of its outside calls. *)
Record Machine := mkMachine {
  self : Batch;
  trace : list Event
}.

(** ** Methods as state-and-exception computations *)

Definition M (A : Type) : Type := Machine -> (Exception + A) * Machine.

Definition ret {A} (a : A) : M A := fun m => (inr a, m).

Definition throw {A} (e : Exception) : M A := fun m => (inl e, m).

Definition bind {A B} (c : M A) (k : A -> M B) : M B :=
  fun m =>
    match c m with
    | (inl e, m') => (inl e, m')
    | (inr a, m') => k a m'
    end.

Definition this : M Batch := fun m => (inr (self m), m).

Definition lift {A} (r : Exception + A) : M A := fun m => (r, m).

Definition emit (ev : Event) : M unit :=
  fun m => (inr tt, mkMachine (self m) (trace m ++ [ev])).

Notation "x <- c ;; k" := (bind c (fun x => k))
  (at level 100, c at next level, right associativity).
Notation "c ;;; k" := (bind c (fun _ => k))
  (at level 100, right associativity).

(** [collector_.ProcessTensor(...)]: the collector and, through
    [&responses_], the response vector are updated in place. *)
Definition collector_ProcessTensor (name : string) (size_bytes : size_type)
    (allowed : list (MemoryType * device_id_t)) : M CollectorReply :=
  fun m =>
    let b := self m in
    let '(reply, c', rs') :=
      ProcessTensor (collector_ b) (responses_ b) name size_bytes allowed in
    (inr reply,
     mkMachine
       (mkBatch (model_state_ b) (instance_state_ b) (requests_ b) rs' c'
                (responder_ b) (stream_ b))
       (trace m ++ [EvProcessTensor name size_bytes allowed])).

(** What the collector of [m] answers to such a call. *)
Definition collector_reply (m : Machine) (name : string)
    (size_bytes : size_type) (allowed : list (MemoryType * device_id_t))
  : CollectorReply :=
  fst (fst (ProcessTensor (collector_ (self m)) (responses_ (self m))
              name size_bytes allowed)).

(** [responder_->Finalize()]. *)
Definition responder_Finalize : M bool :=
  fun m =>
    let b := self m in
    let '(need_sync, r', rs') := Finalize (responder_ b) (responses_ b) in
    (inr need_sync,
     mkMachine
       (mkBatch (model_state_ b) (instance_state_ b) (requests_ b) rs'
                (collector_ b) r' (stream_ b))
       (trace m ++ [EvResponderFinalize])).

(** [cuda_check]: throws unless the CUDA call succeeded. *)
Definition cuda_check (err : cudaError_t) : M unit :=
  match cuda_failure err with
  | Some e => throw e
  | None => ret tt
  end.

(** Owning constructor [Buffer<T>(size, memory_type, device, stream)]. *)
Definition Buffer_alloc (size : size_type) (memory_type : MemoryType)
    (device : device_id_t) (stream : cudaStream_t) : M Buffer :=
  emit (EvAllocate size memory_type device) ;;;
  data <- lift (allocate size memory_type device stream) ;;
  ret (mkBuffer data true size memory_type (Some device) stream).

(** Modelled from the spec: [get_triton_input_shape]
    ([rapids_triton/triton/input.hpp] is missing).  It reads the shape of
    the named input of every request from the serving layer and unifies
    them as spec 4.1 says ([unify_shapes]). *)
Definition get_triton_input_shape (requests : list Request) (name : string)
  : Exception + Shape :=
  match mapE (fun r => InputShape r name) requests with
  | inl e => inl e
  | inr shapes => unify_shapes shapes
  end.

(** Modelled from the spec: [construct_responses]
    ([rapids_triton/triton/responses.hpp] is missing).  Spec 4.4: one
    response slot is allocated per request; a failure for any slot is
    fatal to the construction as a whole. *)
Definition construct_responses (requests : list Request)
  : Exception + list Response :=
  mapE (fun r =>
          match ResponseNew r with
          | inl e => inl e
          | inr h => inr (Some h)
          end) requests.

(** [Batch::get_input_shape] (lines 130-136). *)
Definition get_input_shape (name : string) : M Shape :=
  b <- this ;;
  match requests_ b with
  | [] => ret []
  | _ :: _ => lift (get_triton_input_shape (requests_ b) name)
  end.

(** [Batch::get_output_shape] (lines 138-143).  [FindBatchOutput] returns
    a pointer that the source dereferences unchecked; the null case is
    [NullDereference]. *)
Definition get_output_shape (name : string) : M Shape :=
  b <- this ;;
  match FindBatchOutput (model_state_ b) name with
  | None => throw NullDereference
  | Some triton_result => lift (mapE narrow (OutputShape triton_result))
  end.

(** [Batch::get_input<T>] (lines 65-98); [sizeof_T] is [sizeof(T)].  The
    source calls the shape helper with the request range as well; the
    helper reads [requests_] itself. *)
Definition get_input (sizeof_T : size_type) (name : string)
    (memory_type : MemoryType) (device_id : device_id_t) : M Tensor :=
  shape <- get_input_shape name ;;
  let size_bytes := size_bytes sizeof_T shape in
  reply <-
    collector_ProcessTensor name size_bytes [(memory_type, device_id)] ;;
  b <- this ;;
  let buffer :=
    Buffer_view (raw_buffer reply) (reported_bytes reply)
                (reported_mem_type reply) (stream_ b) in
  if negb (MemoryType_eqb (reported_mem_type reply) memory_type)
     || negb (Z.eqb (reported_device_id reply) device_id)
  then throw wrong_location
  else ret (mkTensor shape buffer).

(** [Batch::get_output<T>] (lines 100-107). *)
Definition get_output (sizeof_T : size_type) (name : string)
    (memory_type : MemoryType) (device_id : device_id_t) : M OutputTensor :=
  shape <- get_output_shape name ;;
  let buffer_size := reduce_mul shape in
  b <- this ;;
  buffer <- Buffer_alloc buffer_size memory_type device_id (stream_ b) ;;
  ret (mkOutputTensor shape buffer name).

(** [Batch::stream] (lines 109-111). *)
Definition stream : M cudaStream_t :=
  b <- this ;;
  ret (stream_ b).

(** [Batch::finalize] (lines 113-119). *)
Definition finalize : M unit :=
  need_sync <- responder_Finalize ;;
  if need_sync
  then
    b <- this ;;
    emit (EvStreamSynchronize (stream_ b)) ;;;
    cuda_check (cudaStreamSynchronize (stream_ b))
  else ret tt.

(** [Batch::Batch] (lines 41-62).  The pair [raw_requests], [count] is the
    list [raw_requests]; [output_shape] and [max_batch_size] are accepted
    and not used. *)
Definition Batch_new (model_state : ModelState)
    (instance_state : ModelInstanceState) (raw_requests : list Request)
    (output_shape : list size_type) (max_batch_size : size_type)
    (stream : cudaStream_t) : Exception + Machine :=
  let requests := raw_requests in
  match construct_responses requests with
  | inl e => inl e
  | inr responses =>
      inr (mkMachine
             (mkBatch model_state instance_state requests responses
                (BackendInputCollector raw_requests
                   (TritonMemoryManager instance_state)
                   (EnablePinnedInput instance_state) stream)
                (BackendOutputResponder raw_requests
                   (get_config_param instance_state "max_batch_size")
                   (EnablePinnedOutput instance_state) stream)
                stream)
             [])
  end.

(** ** Sequences of method calls *)

Inductive Call :=
| CallGetInput (sizeof_T : size_type) (name : string)
    (memory_type : MemoryType) (device_id : device_id_t)
| CallGetOutput (sizeof_T : size_type) (name : string)
    (memory_type : MemoryType) (device_id : device_id_t)
| CallStream
| CallFinalize.

(** The machine after one call, whether it returned or threw. *)
Definition after (c : Call) (m : Machine) : Machine :=
  match c with
  | CallGetInput sz name mt dev => snd (get_input sz name mt dev m)
  | CallGetOutput sz name mt dev => snd (get_output sz name mt dev m)
  | CallStream => snd (stream m)
  | CallFinalize => snd (finalize m)
  end.

Definition after_all (cs : list Call) (m : Machine) : Machine :=
  fold_left (fun m c => after c m) cs m.

(** Calls that neither declare an output nor finalize. *)
Definition declares_no_output (c : Call) : bool :=
  match c with
  | CallGetInput _ _ _ _ | CallStream => true
  | CallGetOutput _ _ _ _ | CallFinalize => false
  end.

Definition is_synchronize (ev : Event) : bool :=
  match ev with
  | EvStreamSynchronize _ => true
  | _ => false
  end.

(** Number of [cudaStreamSynchronize] calls in a log. *)
Definition synchronizations (t : list Event) : nat :=
  List.length (filter is_synchronize t).

Definition is_responder_finalize (ev : Event) : bool :=
  match ev with
  | EvResponderFinalize => true
  | _ => false
  end.

(** Number of [responder_->Finalize()] calls in a log. *)
Definition responder_finalizations (t : list Event) : nat :=
  List.length (filter is_responder_finalize t).

Definition is_finalize_call (c : Call) : bool :=
  match c with
  | CallFinalize => true
  | _ => false
  end.

(** Number of [finalize()] calls in a sequence of calls. *)
Definition finalize_calls (cs : list Call) : nat :=
  List.length (filter is_finalize_call cs).

End BatchModel.

(** ** A concrete serving layer

    Three requests carry input [x] with shapes [2,4], [1,4], [3,4] and input
    [ragged] with shapes [2,4], [1,5], [3,4]; the model declares output [y]
    with shape [2].  The collector gathers into the first allowed location,
    except for the input [misplaced], which it leaves on the host; it reports
    the bytes it gathered, none when it was constructed with no request.  The
    responder is the flag its [Finalize] returns. *)
Module Demo.

Definition input_shape (r : Request) (name : string) : Exception + Shape :=
  if String.eqb name "x" then
    match r with
    | 1 => inr [2; 4]
    | 2 => inr [1; 4]
    | _ => inr [3; 4]
    end
  else if String.eqb name "ragged" then
    match r with
    | 1 => inr [2; 4]
    | 2 => inr [1; 5]
    | _ => inr [3; 4]
    end
  else if String.eqb name "misplaced" then inr [1; 4]
  else inl (TritonException NotFound "unknown input").

Definition process_tensor (c : list Request) (rs : list Response)
    (name : string) (size_bytes : size_type)
    (allowed : list (MemoryType * device_id_t))
  : CollectorReply * list Request * list Response :=
  let '(mt, dev) := hd (HostMemory, 0%Z) allowed in
  let bytes := match c with [] => 0 | _ :: _ => size_bytes end in
  let mt' := if String.eqb name "misplaced" then HostMemory else mt in
  (Build_CollectorReply 4096 bytes mt' dev, c, rs).

Definition narrow_size (z : Z) : Exception + size_type :=
  if (z <? 0)%Z then inl (TritonException Internal "invalid narrowing")
  else inr (Z.to_N z).

#[export] Instance backend : TritonBackend := {|
  Collector := list Request;
  Responder := bool;
  ResponseNew := fun r => inr (100 + r);
  InputShape := input_shape;
  BackendInputCollector := fun reqs _ _ _ => reqs;
  ProcessTensor := process_tensor;
  BackendOutputResponder := fun _ _ _ _ => false;
  Finalize := fun r rs => (r, r, rs);
  cudaStreamSynchronize := fun _ => 0;
  cuda_failure := fun err =>
    if err =? 0 then None
    else Some (TritonException Internal "CUDA call failed");
  narrow := narrow_size;
  allocate := fun _ _ _ _ => inr 8192
|}.

Definition model : ModelState :=
  {| FindBatchOutput := fun name =>
       if String.eqb name "y" then Some {| OutputShape := [2%Z] |}
       else None |}.

Definition instance : ModelInstanceState :=
  {| TritonMemoryManager := 1;
     EnablePinnedInput := true;
     EnablePinnedOutput := true;
     get_config_param := fun _ => 8%Z |}.

(** The batch of the three requests, and the batch of none. *)
Definition batch3 : Machine :=
  mkMachine
    (mkBatch model instance [1; 2; 3] [Some 101; Some 102; Some 103]
       [1; 2; 3] false 7)
    [].

Definition batch0 : Machine :=
  mkMachine (mkBatch model instance [] [] [] false 7) [].

(** The batch of the three requests once an output tensor has enqueued
    scatter work on the shared responder. *)
Definition batch3_pending : Machine :=
  mkMachine
    (mkBatch model instance [1; 2; 3] [Some 101; Some 102; Some 103]
       [1; 2; 3] true 7)
    [].

(** A batch without requests whose model declares an output with a
    dynamic dimension, shape [2,-1,3]. *)
Definition batch_dynamic : Machine :=
  mkMachine
    (mkBatch
       {| FindBatchOutput := fun _ =>
            Some {| OutputShape := [2; -1; 3]%Z |} |}
       instance [] [] [] false 7)
    [].

(** A batch without requests whose model declares an output of shape
    [2^32, 2^32]. *)
Definition batch_huge : Machine :=
  mkMachine
    (mkBatch
       {| FindBatchOutput := fun _ =>
            Some {| OutputShape := [4294967296; 4294967296]%Z |} |}
       instance [] [] [] false 7)
    [].

End Demo.

Example demo_construct :
  Batch_new Demo.model Demo.instance [1; 2; 3] [2] 8 7 = inr Demo.batch3.
Proof. reflexivity. Qed.

Example demo_get_input_x :
  fst (get_input 4 "x" DeviceMemory 0%Z Demo.batch3)
  = inr (mkTensor [6; 4] (Buffer_view 4096 96 DeviceMemory 7)).
Proof. reflexivity. Qed.

Example demo_get_output_y :
  fst (get_output 4 "y" DeviceMemory 0%Z Demo.batch3)
  = inr (mkOutputTensor [2]
           (mkBuffer 8192 true 2 DeviceMemory (Some 0%Z) 7) "y").
Proof. reflexivity. Qed.

(** * Properties *)

(** ** Scalars, shapes and the shape resolver *)

Lemma MemoryType_eqb_spec a b : reflect (a = b) (MemoryType_eqb a b).
Proof. destruct a, b; simpl; constructor; congruence. Qed.

Lemma shape_eqb_eq (a b : Shape) : shape_eqb a b = true <-> a = b.
Proof.
  revert b. induction a as [|x a IH]; intros [|y b]; simpl;
    try (split; [discriminate | congruence]); try tauto.
  rewrite andb_true_iff, N.eqb_eq, IH. split.
  - intros [-> ->]. reflexivity.
  - intros [= -> ->]. auto.
Qed.

Lemma SIZE_MODULUS_nonzero : SIZE_MODULUS <> 0.
Proof. discriminate. Qed.

Lemma wrap_small n : n < SIZE_MODULUS -> wrap n = n.
Proof. apply N.mod_small. Qed.

Lemma wrap_mul_l a b : wrap (wrap a * b) = wrap (a * b).
Proof.
  unfold wrap. rewrite N.Div0.mul_mod_idemp_l. reflexivity.
Qed.

Lemma fold_mul_wrap shape acc :
  wrap (fold_left (fun a d => wrap (a * d)) shape acc)
  = wrap (acc * product shape).
Proof.
  revert acc. induction shape as [|d shape IH]; intros acc; simpl.
  - now rewrite N.mul_1_r.
  - rewrite IH, wrap_mul_l. f_equal. lia.
Qed.

Lemma wrap_idem n : wrap (wrap n) = wrap n.
Proof. unfold wrap. apply N.Div0.mod_mod. Qed.

Lemma fold_mul_wrapped shape acc :
  acc < SIZE_MODULUS ->
  fold_left (fun a d => wrap (a * d)) shape acc < SIZE_MODULUS.
Proof.
  revert acc. induction shape as [|d shape IH]; intros acc Hacc; simpl.
  - exact Hacc.
  - apply IH. apply N.mod_lt, SIZE_MODULUS_nonzero.
Qed.

(** The [size_t] reduction is the product of the dimensions modulo 2^64. *)
Lemma reduce_mul_product shape : reduce_mul shape = wrap (product shape).
Proof.
  unfold reduce_mul.
  rewrite <- (wrap_small (fold_left _ shape 1)).
  - rewrite fold_mul_wrap. f_equal. lia.
  - apply fold_mul_wrapped. reflexivity.
Qed.

Lemma size_bytes_product sz shape :
  size_bytes sz shape = wrap (sz * product shape).
Proof.
  unfold size_bytes.
  rewrite reduce_mul_product, N.mul_comm, wrap_mul_l. f_equal. lia.
Qed.

Lemma first_mismatch_None expected i shapes :
  first_mismatch expected i shapes = None <->
  Forall (fun s => non_batch s = expected) shapes.
Proof.
  revert i. induction shapes as [|s rest IH]; intros i; simpl.
  - split; auto.
  - destruct (shape_eqb (non_batch s) expected) eqn:E.
    + apply shape_eqb_eq in E. rewrite IH. split.
      * intros H. constructor; assumption.
      * intros H. inversion H; assumption.
    + split; [discriminate|]. intros H. inversion H as [|? ? Hs _].
      apply shape_eqb_eq in Hs. congruence.
Qed.

(** The index reported names a request whose non-batch dimensions differ. *)
Lemma first_mismatch_Some expected i shapes k :
  first_mismatch expected i shapes = Some k ->
  exists j s, k = (i + j)%nat /\ nth_error shapes j = Some s
              /\ non_batch s <> expected.
Proof.
  revert i. induction shapes as [|s rest IH]; intros i; simpl; [discriminate|].
  destruct (shape_eqb (non_batch s) expected) eqn:E.
  - intros H. destruct (IH _ H) as (j & s' & -> & Hn & Hd).
    exists (S j), s'. split; [lia | split; assumption].
  - intros [= <-]. exists 0%nat, s. split; [lia | split; [reflexivity|]].
    intros Heq. apply shape_eqb_eq in Heq. congruence.
Qed.

Lemma unify_shapes_agree shapes :
  (forall s1 s2, In s1 shapes -> In s2 shapes -> non_batch s1 = non_batch s2) ->
  unify_shapes shapes =
  inr match shapes with
      | [] => []
      | s0 :: _ => sum_batch shapes :: non_batch s0
      end.
Proof.
  intros Hagree. destruct shapes as [|s0 rest]; [reflexivity|].
  unfold unify_shapes.
  assert (H : first_mismatch (non_batch s0) 0 (s0 :: rest) = None).
  { apply first_mismatch_None, Forall_forall. intros s Hs.
    apply Hagree; simpl; auto. }
  rewrite H. reflexivity.
Qed.

Lemma unify_shapes_disagree shapes i j si sj :
  nth_error shapes i = Some si ->
  nth_error shapes j = Some sj ->
  non_batch si <> non_batch sj ->
  exists k s, unify_shapes shapes = inl (IncompatibleShape k)
              /\ nth_error shapes k = Some s
              /\ non_batch s <> non_batch (hd [] shapes).
Proof.
  intros Hi Hj Hne. destruct shapes as [|s0 rest].
  - destruct i; discriminate.
  - unfold unify_shapes.
    destruct (first_mismatch (non_batch s0) 0 (s0 :: rest)) as [k|] eqn:E.
    + destruct (first_mismatch_Some _ _ _ _ E) as (n & s & -> & Hn & Hd).
      exists n, s. auto.
    + exfalso. apply first_mismatch_None in E.
      rewrite Forall_forall in E. apply Hne.
      rewrite (E si), (E sj); eauto using nth_error_In.
Qed.

Lemma mapE_Forall2 {A B} (f : A -> Exception + B) l l' :
  mapE f l = inr l' <-> Forall2 (fun a b => f a = inr b) l l'.
Proof.
  revert l'. induction l as [|a l IH]; intros l'; simpl.
  - split.
    + intros [= <-]. constructor.
    + intros H. inversion H. reflexivity.
  - destruct (f a) as [e|b] eqn:Ea.
    + split; [discriminate|]. intros H. inversion H; subst. congruence.
    + destruct (mapE f l) as [e|bs] eqn:El.
      * split; [discriminate|]. intros H. inversion H; subst.
        match goal with H' : Forall2 _ l _ |- _ => apply IH in H' end.
        discriminate.
      * split.
        -- intros [= <-]. constructor; [assumption|]. now apply IH.
        -- intros H. inversion H as [|? b' ? bs' Hb Hbs]; subst.
           apply IH in Hbs. congruence.
Qed.

Lemma mapE_length {A B} (f : A -> Exception + B) l l' :
  mapE f l = inr l' -> List.length l' = List.length l.
Proof.
  intros H. apply mapE_Forall2 in H.
  symmetry. eapply Forall2_length; eauto.
Qed.

(** ** Running the methods *)

Section BatchProperties.
Context {api : TritonBackend}.

Lemma get_input_shape_run name (m : Machine) :
  get_input_shape name m =
  (match requests_ (self m) with
   | [] => inr []
   | _ :: _ => get_triton_input_shape (requests_ (self m)) name
   end, m).
Proof.
  unfold get_input_shape, bind, this, ret, lift.
  destruct (requests_ (self m)); reflexivity.
Qed.

Lemma collector_ProcessTensor_run name size allowed (m : Machine) :
  exists m',
    collector_ProcessTensor name size allowed m
    = (inr (collector_reply m name size allowed), m')
    /\ trace m' = trace m ++ [EvProcessTensor name size allowed]
    /\ requests_ (self m') = requests_ (self m)
    /\ stream_ (self m') = stream_ (self m)
    /\ responder_ (self m') = responder_ (self m)
    /\ model_state_ (self m') = model_state_ (self m)
    /\ responses_ (self m')
       = snd (ProcessTensor (collector_ (self m)) (responses_ (self m))
                name size allowed).
Proof.
  unfold collector_ProcessTensor, collector_reply.
  destruct (ProcessTensor _ _ _ _ _) as [[reply c'] rs'].
  eexists. split; [reflexivity|]. simpl. repeat split.
Qed.

(** [get_input] is shape resolution, one collector call, and the location
    check. *)
Lemma get_input_run sz name mt dev (m : Machine) shape :
  fst (get_input_shape name m) = inr shape ->
  let reply := collector_reply m name (size_bytes sz shape) [(mt, dev)] in
  fst (get_input sz name mt dev m)
  = if negb (MemoryType_eqb (reported_mem_type reply) mt)
       || negb (Z.eqb (reported_device_id reply) dev)
    then inl wrong_location
    else inr (mkTensor shape
                (Buffer_view (raw_buffer reply) (reported_bytes reply)
                   (reported_mem_type reply) (stream_ (self m)))).
Proof.
  intros Hshape reply.
  destruct (collector_ProcessTensor_run name (size_bytes sz shape)
              [(mt, dev)] m) as (m' & Hrun & _ & _ & Hstream & _).
  unfold get_input, bind.
  rewrite get_input_shape_run in Hshape |- *. simpl in Hshape.
  rewrite Hshape, Hrun. fold reply. unfold this.
  destruct (negb _ || negb _); simpl; [reflexivity|].
  rewrite Hstream. reflexivity.
Qed.

Lemma get_input_shape_error sz name mt dev (m : Machine) e :
  fst (get_input_shape name m) = inl e ->
  get_input sz name mt dev m = (inl e, m).
Proof.
  intros Hshape. unfold get_input, bind.
  rewrite get_input_shape_run in Hshape |- *. simpl in Hshape.
  rewrite Hshape. reflexivity.
Qed.

Lemma location_check reply mt dev :
  negb (MemoryType_eqb (reported_mem_type reply) mt)
  || negb (Z.eqb (reported_device_id reply) dev) = true
  <-> reported_mem_type reply <> mt \/ reported_device_id reply <> dev.
Proof.
  destruct (MemoryType_eqb_spec (reported_mem_type reply) mt);
    destruct (Z.eqb_spec (reported_device_id reply) dev); simpl;
    intuition congruence.
Qed.

Lemma get_output_run sz name mt dev (m : Machine) :
  get_output sz name mt dev m =
  match FindBatchOutput (model_state_ (self m)) name with
  | None => (inl NullDereference, m)
  | Some triton_result =>
      match mapE narrow (OutputShape triton_result) with
      | inl e => (inl e, m)
      | inr shape =>
          let n := reduce_mul shape in
          let m' := mkMachine (self m) (trace m ++ [EvAllocate n mt dev]) in
          match allocate n mt dev (stream_ (self m)) with
          | inl e => (inl e, m')
          | inr data =>
              (inr (mkOutputTensor shape
                      (mkBuffer data true n mt (Some dev)
                         (stream_ (self m)))
                      name), m')
          end
      end
  end.
Proof.
  unfold get_output, get_output_shape, Buffer_alloc, bind, this, throw,
    lift, emit, ret.
  destruct (FindBatchOutput _ name) as [bo|]; [|reflexivity].
  destruct (mapE narrow (OutputShape bo)) as [e|shape]; [reflexivity|].
  simpl. destruct (allocate _ _ _ _); reflexivity.
Qed.

Lemma finalize_run (m : Machine) :
  let b := self m in
  let '(need_sync, r', rs') := Finalize (responder_ b) (responses_ b) in
  let b' := mkBatch (model_state_ b) (instance_state_ b) (requests_ b) rs'
              (collector_ b) r' (stream_ b) in
  finalize m =
  if need_sync
  then (match cuda_failure (cudaStreamSynchronize (stream_ b)) with
        | Some e => inl e
        | None => inr tt
        end,
        mkMachine b'
          (trace m ++ [EvResponderFinalize; EvStreamSynchronize (stream_ b)]))
  else (inr tt, mkMachine b' (trace m ++ [EvResponderFinalize])).
Proof.
  unfold finalize, responder_Finalize, cuda_check, bind, this, emit, throw,
    ret.
  destruct (Finalize _ _) as [[need r'] rs'].
  destruct need; simpl; [|reflexivity].
  rewrite <- app_assoc. simpl.
  destruct (cuda_failure _); reflexivity.
Qed.

(** The state [get_input] leaves: untouched when shape resolution throws,
    else as the collector call left it. *)
Lemma get_input_state sz name mt dev (m : Machine) :
  (exists e, fst (get_input_shape name m) = inl e
             /\ snd (get_input sz name mt dev m) = m)
  \/ (exists shape,
        fst (get_input_shape name m) = inr shape
        /\ snd (get_input sz name mt dev m)
           = snd (collector_ProcessTensor name (size_bytes sz shape)
                    [(mt, dev)] m)).
Proof.
  destruct (fst (get_input_shape name m)) as [e|shape] eqn:Hshape.
  - left. exists e. split; [reflexivity|].
    now rewrite (get_input_shape_error _ _ _ _ _ _ Hshape).
  - right. exists shape. split; [reflexivity|].
    destruct (collector_ProcessTensor_run name (size_bytes sz shape)
                [(mt, dev)] m) as (m' & Hrun & _).
    unfold get_input, bind.
    rewrite get_input_shape_run in Hshape |- *. simpl in Hshape.
    rewrite Hshape, Hrun. unfold this.
    destruct (negb _ || negb _); reflexivity.
Qed.

(** No method assigns [requests_], [model_state_] or [stream_]. *)
Lemma after_frame (c : Call) (m : Machine) :
  requests_ (self (after c m)) = requests_ (self m)
  /\ model_state_ (self (after c m)) = model_state_ (self m)
  /\ stream_ (self (after c m)) = stream_ (self m).
Proof.
  destruct c as [sz name mt dev|sz name mt dev| |]; simpl.
  - destruct (get_input_state sz name mt dev m)
      as [(e & _ & ->)|(shape & _ & ->)]; [auto|].
    destruct (collector_ProcessTensor_run name (size_bytes sz shape)
                [(mt, dev)] m) as (m' & -> & _ & Hr & Hs & _ & Hm & _).
    simpl. auto.
  - rewrite get_output_run.
    destruct (FindBatchOutput _ name) as [bo|]; [|auto].
    destruct (mapE narrow (OutputShape bo)); [auto|].
    simpl. destruct (allocate _ _ _ _); auto.
  - auto.
  - pose proof (finalize_run m) as H. simpl in H.
    destruct (Finalize _ _) as [[need r'] rs']. rewrite H.
    destruct need; auto.
Qed.

Lemma after_all_frame (calls : list Call) (m : Machine) :
  requests_ (self (after_all calls m)) = requests_ (self m)
  /\ model_state_ (self (after_all calls m)) = model_state_ (self m)
  /\ stream_ (self (after_all calls m)) = stream_ (self m).
Proof.
  unfold after_all. revert m.
  induction calls as [|c calls IH]; intros m; simpl; [auto|].
  destruct (IH (after c m)) as (-> & -> & ->). apply after_frame.
Qed.

(** *** The empty batch *)

(** C9 (spec 4.1, lines 130-136): a batch constructed from an empty
    request list resolves every input name to the empty shape, without an
    error and without touching the batch, also after any sequence of
    method calls. *)
Theorem get_input_shape_empty_batch
    (model_state : ModelState) (instance_state : ModelInstanceState)
    (output_shape : list size_type) (max_batch_size : size_type)
    (s : cudaStream_t) :
  exists m0,
    Batch_new model_state instance_state [] output_shape max_batch_size s
    = inr m0
    /\ forall (calls : list Call) (name : string),
         get_input_shape name (after_all calls m0)
         = (inr [], after_all calls m0).
Proof.
  eexists. split; [reflexivity|]. intros calls name.
  rewrite get_input_shape_run.
  match goal with
  | |- context [after_all calls ?m0] =>
      destruct (after_all_frame calls m0) as (Hreq & _)
  end.
  rewrite Hreq. reflexivity.
Qed.

(** C10 (lines 66-84, 130-136): on a batch without requests
    [get_input<T>] resolves the empty shape, computes [sizeof(T)] times
    the empty product 1, that is [sizeof(T)] and not zero, and asks the
    collector for a buffer of that many bytes. *)
Theorem get_input_empty_batch_size_bytes
    (sizeof_T : size_type) (name : string) (memory_type : MemoryType)
    (device_id : device_id_t) (m : Machine) :
  requests_ (self m) = [] ->
  0 < sizeof_T < SIZE_MODULUS ->
  fst (get_input_shape name m) = inr []
  /\ size_bytes sizeof_T [] = sizeof_T
  /\ size_bytes sizeof_T [] <> 0
  /\ trace (snd (get_input sizeof_T name memory_type device_id m))
     = trace m ++ [EvProcessTensor name sizeof_T [(memory_type, device_id)]].
Proof.
  intros Hempty [Hpos Hlt].
  assert (Hshape : fst (get_input_shape name m) = inr []).
  { rewrite get_input_shape_run, Hempty. reflexivity. }
  assert (Hbytes : size_bytes sizeof_T [] = sizeof_T).
  { unfold size_bytes, reduce_mul. simpl.
    rewrite N.mul_1_r. now apply wrap_small. }
  repeat split; auto.
  - rewrite Hbytes. lia.
  - destruct (get_input_state sizeof_T name memory_type device_id m)
      as [(e & He & _)|(shape & Hs & ->)]; [congruence|].
    assert (shape = []) by congruence. subst shape.
    destruct (collector_ProcessTensor_run name (size_bytes sizeof_T [])
                [(memory_type, device_id)] m) as (m' & -> & Htr & _).
    simpl. rewrite Htr, Hbytes. reflexivity.
Qed.

(** *** The location check *)


(** *** Shape resolution of inputs *)

Lemma get_triton_input_shape_of requests name shapes :
  Forall2 (fun r s => InputShape r name = inr s) requests shapes ->
  get_triton_input_shape requests name = unify_shapes shapes.
Proof.
  intros H. apply mapE_Forall2 in H.
  unfold get_triton_input_shape. rewrite H. reflexivity.
Qed.

Lemma get_input_shape_of name (m : Machine) shapes :
  Forall2 (fun r s => InputShape r name = inr s) (requests_ (self m))
    shapes ->
  fst (get_input_shape name m) = unify_shapes shapes.
Proof.
  intros H. rewrite get_input_shape_run. simpl.
  destruct (requests_ (self m)) as [|r rs] eqn:Hreq.
  - inversion H. reflexivity.
  - now apply get_triton_input_shape_of.
Qed.

(** C1 (spec 4.1 and 8, lines 66-98): when the per-request shapes of the
    named input agree on every non-batch dimension, the shape [get_input]
    resolves has the sum of the per-request batch-axis sizes as its
    leading dimension and the requests' non-batch dimensions after it;
    every tensor [get_input] returns carries that shape, and it returns
    one whenever the collector reports the requested location. *)
Theorem get_input_sums_batch_axis
    (sizeof_T : size_type) (name : string) (memory_type : MemoryType)
    (device_id : device_id_t) (m : Machine) (shapes : list Shape) :
  Forall2 (fun r s => InputShape r name = inr s) (requests_ (self m))
    shapes ->
  (forall s1 s2, In s1 shapes -> In s2 shapes ->
                 non_batch s1 = non_batch s2) ->
  exists shape,
    fst (get_input_shape name m) = inr shape
    /\ batch_dim shape = sum_batch shapes
    /\ Forall (fun s => non_batch s = non_batch shape) shapes
    /\ (shapes <> [] ->
        shape = sum_batch shapes :: non_batch (hd [] shapes))
    /\ (forall t,
          fst (get_input sizeof_T name memory_type device_id m) = inr t ->
          tensor_shape t = shape)
    /\ (let reply :=
          collector_reply m name (size_bytes sizeof_T shape)
            [(memory_type, device_id)] in
        reported_mem_type reply = memory_type ->
        reported_device_id reply = device_id ->
        exists t,
          fst (get_input sizeof_T name memory_type device_id m) = inr t
          /\ tensor_shape t = shape).
Proof.
  intros Hshapes Hagree.
  pose proof (get_input_shape_of name m shapes Hshapes) as Hres.
  rewrite (unify_shapes_agree shapes Hagree) in Hres.
  eexists. split; [exact Hres|].
  pose proof (get_input_run sizeof_T name memory_type device_id m _ Hres)
    as Hrun.
  simpl in Hrun.
  split; [|split; [|split; [|split]]].
  - destruct shapes; reflexivity.
  - apply Forall_forall. intros s Hs.
    destruct shapes as [|s0 rest]; [contradiction|].
    simpl. apply Hagree; simpl; auto.
  - destruct shapes; [congruence|reflexivity].
  - intros t Ht. rewrite Hrun in Ht.
    destruct (negb _ || negb _); [discriminate|].
    injection Ht as <-. reflexivity.
  - intros reply Hmt Hdev. subst reply.
    destruct (negb _ || negb _) eqn:Hchk.
    + apply location_check in Hchk. tauto.
    + eexists. split; [exact Hrun|]. reflexivity.
Qed.

(** C5 (spec 4.1, 7 and 8): when two requests disagree on a non-batch
    dimension of the named input, [get_input] throws [IncompatibleShape]
    naming a request of the batch; it returns no tensor, and the batch and
    the collector are left untouched. *)
Theorem get_input_incompatible_shapes
    (sizeof_T : size_type) (name : string) (memory_type : MemoryType)
    (device_id : device_id_t) (m : Machine) (shapes : list Shape)
    (i j : nat) (si sj : Shape) :
  Forall2 (fun r s => InputShape r name = inr s) (requests_ (self m))
    shapes ->
  nth_error shapes i = Some si ->
  nth_error shapes j = Some sj ->
  non_batch si <> non_batch sj ->
  exists k,
    get_input sizeof_T name memory_type device_id m
    = (inl (IncompatibleShape k), m)
    /\ (k < List.length (requests_ (self m)))%nat.
Proof.
  intros Hshapes Hi Hj Hne.
  destruct (unify_shapes_disagree shapes i j si sj Hi Hj Hne)
    as (k & s & Hk & Hnth & _).
  exists k. split.
  - apply get_input_shape_error.
    now rewrite (get_input_shape_of name m shapes Hshapes).
  - rewrite (Forall2_length Hshapes).
    apply nth_error_Some. congruence.
Qed.

(** *** Byte length of an input buffer *)

(** C8, as the code has it (lines 68, 86-97): the buffer of a tensor
    returned by [get_input<T>] has the length the collector reported, which
    [get_input] does not compare with the length it requested; the length
    is [sizeof(T)] times the product of the shape's dimensions when the
    collector reports the requested length and that product fits
    [size_t]. *)
Theorem get_input_buffer_length
    (sizeof_T : size_type) (name : string) (memory_type : MemoryType)
    (device_id : device_id_t) (m : Machine) (t : Tensor) :
  fst (get_input sizeof_T name memory_type device_id m) = inr t ->
  let requested := size_bytes sizeof_T (tensor_shape t) in
  let reply :=
    collector_reply m name requested [(memory_type, device_id)] in
  buffer_size (tensor_buffer t) = reported_bytes reply
  /\ requested = wrap (sizeof_T * product (tensor_shape t))
  /\ (reported_bytes reply = requested ->
      sizeof_T * product (tensor_shape t) < SIZE_MODULUS ->
      buffer_size (tensor_buffer t)
      = sizeof_T * product (tensor_shape t)).
Proof.
  intros Ht.
  destruct (fst (get_input_shape name m)) as [e|shape] eqn:Hshape.
  { rewrite (get_input_shape_error _ _ _ _ _ _ Hshape) in Ht.
    discriminate. }
  rewrite (get_input_run _ _ _ _ _ _ Hshape) in Ht.
  destruct (negb _ || negb _); [discriminate|].
  injection Ht as <-. simpl.
  split; [reflexivity|]. split; [apply size_bytes_product|].
  intros -> Hfit. rewrite size_bytes_product. now apply wrap_small.
Qed.

(** *** Outputs *)

(** C2, as the code has it (lines 100-107, 138-143): the tensor
    [get_output] returns has the shape the model metadata declares for the
    name, each coordinate narrowed to [size_t] and none scaled by the
    batch size, and its buffer holds the [size_t] product of that shape's
    dimensions in elements, in the requested memory space and device; it
    is returned whenever the output is declared, every coordinate narrows
    and the allocation succeeds. *)
Theorem get_output_metadata_shape
    (sizeof_T : size_type) (name : string) (memory_type : MemoryType)
    (device_id : device_id_t) (m : Machine) :
  (forall t,
     fst (get_output sizeof_T name memory_type device_id m) = inr t ->
     exists triton_result,
       FindBatchOutput (model_state_ (self m)) name = Some triton_result
       /\ Forall2 (fun coord d => narrow coord = inr d)
            (OutputShape triton_result) (output_shape t)
       /\ buffer_size (output_buffer t) = wrap (product (output_shape t))
       /\ buffer_memory_type (output_buffer t) = memory_type
       /\ buffer_device (output_buffer t) = Some device_id)
  /\ (forall triton_result shape data,
        FindBatchOutput (model_state_ (self m)) name = Some triton_result ->
        Forall2 (fun coord d => narrow coord = inr d)
          (OutputShape triton_result) shape ->
        allocate (reduce_mul shape) memory_type device_id
          (stream_ (self m)) = inr data ->
        exists t,
          fst (get_output sizeof_T name memory_type device_id m) = inr t
          /\ output_shape t = shape
          /\ (product shape < SIZE_MODULUS ->
              buffer_size (output_buffer t) = product shape)).
Proof.
  rewrite get_output_run. split.
  - intros t Ht.
    destruct (FindBatchOutput _ name) as [bo|]; [|discriminate].
    destruct (mapE narrow (OutputShape bo)) as [e|shape] eqn:Hn;
      [discriminate|].
    simpl in Ht. destruct (allocate _ _ _ _); [discriminate|].
    injection Ht as <-. simpl. exists bo.
    split; [reflexivity|]. split; [now apply mapE_Forall2|].
    split; [apply reduce_mul_product|]. auto.
  - intros bo shape data -> Hn Halloc.
    apply mapE_Forall2 in Hn. rewrite Hn. simpl. rewrite Halloc.
    eexists. split; [reflexivity|]. simpl. split; [reflexivity|].
    intros Hfit. rewrite reduce_mul_product. now apply wrap_small.
Qed.

(** *** Finalization *)

Lemma synchronizations_app t1 t2 :
  synchronizations (t1 ++ t2)
  = (synchronizations t1 + synchronizations t2)%nat.
Proof.
  unfold synchronizations. now rewrite filter_app, length_app.
Qed.

(** [get_input] and [stream] leave the responder alone and do not
    synchronize. *)
Lemma after_no_output (c : Call) (m : Machine) :
  declares_no_output c = true ->
  responder_ (self (after c m)) = responder_ (self m)
  /\ synchronizations (trace (after c m)) = synchronizations (trace m).
Proof.
  destruct c as [sz name mt dev|sz name mt dev| |]; simpl;
    try discriminate; intros _; [|auto].
  destruct (get_input_state sz name mt dev m)
    as [(e & _ & ->)|(shape & _ & ->)]; [auto|].
  destruct (collector_ProcessTensor_run name (size_bytes sz shape)
              [(mt, dev)] m) as (m' & -> & Htr & _ & _ & Hr & _).
  simpl. rewrite Htr, synchronizations_app. cbn.
  split; [exact Hr | lia].
Qed.

Lemma after_all_no_output (calls : list Call) (m : Machine) :
  forallb declares_no_output calls = true ->
  responder_ (self (after_all calls m)) = responder_ (self m)
  /\ synchronizations (trace (after_all calls m))
     = synchronizations (trace m).
Proof.
  unfold after_all. revert m.
  induction calls as [|c calls IH]; intros m; simpl; [auto|].
  rewrite andb_true_iff. intros [Hc Hcalls].
  destruct (IH (after c m) Hcalls) as (-> & ->).
  now apply after_no_output.
Qed.

(** C3 (spec 4.3 and 8, lines 113-119): [finalize] asks the responder to
    finalize and then synchronizes the stream exactly when the responder
    reported enqueued work; in particular, on a batch on which only
    [get_input] and [stream] were called, so that no output was declared,
    [finalize] does not synchronize, the responder reporting no work when
    no output tensor was handed to it. *)
Theorem finalize_synchronizes_iff_work_enqueued :
  (forall (m : Machine),
     let need_sync :=
       fst (fst (Finalize (responder_ (self m)) (responses_ (self m)))) in
     trace (snd (finalize m))
     = trace m ++ EvResponderFinalize
         :: (if need_sync then [EvStreamSynchronize (stream_ (self m))]
             else [])
     /\ (synchronizations (trace (snd (finalize m)))
         = S (synchronizations (trace m)) <-> need_sync = true)
     /\ (synchronizations (trace (snd (finalize m)))
         = synchronizations (trace m) <-> need_sync = false))
  /\ (forall model_state instance_state raw_requests output_shape
             max_batch_size s m0 calls,
        (forall responses,
           fst (fst (Finalize
                       (BackendOutputResponder raw_requests
                          (get_config_param instance_state "max_batch_size")
                          (EnablePinnedOutput instance_state) s)
                       responses)) = false) ->
        Batch_new model_state instance_state raw_requests output_shape
          max_batch_size s = inr m0 ->
        forallb declares_no_output calls = true ->
        synchronizations (trace (snd (finalize (after_all calls m0)))) = 0%nat).
Proof.
  assert (Hstep : forall m : Machine,
    trace (snd (finalize m))
    = trace m ++ EvResponderFinalize
        :: (if fst (fst (Finalize (responder_ (self m))
                           (responses_ (self m))))
            then [EvStreamSynchronize (stream_ (self m))] else [])).
  { intros m. pose proof (finalize_run m) as H. simpl in H.
    destruct (Finalize _ _) as [[need r'] rs']. rewrite H.
    destruct need; reflexivity. }
  split.
  - intros m need_sync. split; [apply Hstep|].
    rewrite Hstep, synchronizations_app. fold need_sync.
    destruct need_sync; cbn; split; split;
      intros; try reflexivity; try discriminate; lia.
  - intros ms ist raw os mbs s m0 calls Hfresh Hnew Hcalls.
    destruct (after_all_no_output calls m0 Hcalls) as (Hr & Hs).
    unfold Batch_new in Hnew.
    destruct (construct_responses raw); [discriminate|].
    injection Hnew as <-. simpl in Hr, Hs.
    rewrite Hstep, synchronizations_app, Hs, Hr, Hfresh. reflexivity.
Qed.

(** *** The response list *)

Lemma after_responses_length (c : Call) (m : Machine) :
  (forall col rs name size allowed,
     List.length (snd (ProcessTensor col rs name size allowed))
     = List.length rs) ->
  (forall r rs, List.length (snd (Finalize r rs)) = List.length rs) ->
  List.length (responses_ (self (after c m)))
  = List.length (responses_ (self m)).
Proof.
  intros Hcol Hresp.
  destruct c as [sz name mt dev|sz name mt dev| |]; simpl.
  - destruct (get_input_state sz name mt dev m)
      as [(e & _ & ->)|(shape & _ & ->)]; [auto|].
    destruct (collector_ProcessTensor_run name (size_bytes sz shape)
                [(mt, dev)] m) as (m' & -> & _ & _ & _ & _ & _ & Hrs).
    simpl. rewrite Hrs. apply Hcol.
  - rewrite get_output_run.
    destruct (FindBatchOutput _ name) as [bo|]; [|auto].
    destruct (mapE narrow (OutputShape bo)); [auto|].
    simpl. destruct (allocate _ _ _ _); auto.
  - auto.
  - pose proof (finalize_run m) as H. simpl in H.
    specialize (Hresp (responder_ (self m)) (responses_ (self m))).
    destruct (Finalize _ _) as [[need r'] rs']. rewrite H.
    destruct need; exact Hresp.
Qed.

Lemma after_all_responses_length (calls : list Call) (m : Machine) :
  (forall col rs name size allowed,
     List.length (snd (ProcessTensor col rs name size allowed))
     = List.length rs) ->
  (forall r rs, List.length (snd (Finalize r rs)) = List.length rs) ->
  List.length (responses_ (self (after_all calls m)))
  = List.length (responses_ (self m)).
Proof.
  intros Hcol Hresp. unfold after_all. revert m.
  induction calls as [|c calls IH]; intros m; simpl; [reflexivity|].
  rewrite IH. now apply after_responses_length.
Qed.

(** C7 (spec 3 and 8, lines 41-62): a batch constructed from N request
    handles has N responses and N requests, and keeps both counts through
    every sequence of [get_input], [get_output], [stream] and [finalize]
    calls, the collector and the responder writing into the response
    vector without resizing it. *)
Theorem responses_length_invariant
    (model_state : ModelState) (instance_state : ModelInstanceState)
    (raw_requests : list Request) (output_shape : list size_type)
    (max_batch_size : size_type) (s : cudaStream_t) (m0 : Machine) :
  (forall col rs name size allowed,
     List.length (snd (ProcessTensor col rs name size allowed))
     = List.length rs) ->
  (forall r rs, List.length (snd (Finalize r rs)) = List.length rs) ->
  Batch_new model_state instance_state raw_requests output_shape
    max_batch_size s = inr m0 ->
  List.length (responses_ (self m0)) = List.length raw_requests
  /\ List.length (requests_ (self m0)) = List.length raw_requests
  /\ forall calls,
       List.length (responses_ (self (after_all calls m0)))
       = List.length raw_requests
       /\ List.length (requests_ (self (after_all calls m0)))
          = List.length raw_requests.
Proof.
  intros Hcol Hresp Hnew. unfold Batch_new in Hnew.
  destruct (construct_responses raw_requests) as [e|responses] eqn:Hc;
    [discriminate|].
  injection Hnew as <-. simpl.
  apply mapE_length in Hc.
  split; [exact Hc|]. split; [reflexivity|].
  intros calls. split.
  - rewrite after_all_responses_length by assumption. exact Hc.
  - match goal with
    | |- context [after_all calls ?m] =>
        destruct (after_all_frame calls m) as (-> & _)
    end.
    reflexivity.
Qed.

(** *** Calls after [finalize] *)

(** C6, as the code has it (lines 65-119): the batch keeps no record of
    having been finalized.  After [finalize], [get_output] gives the
    result it gave before, and [get_input] resolves the shape as before,
    calls the collector and applies the location check: it returns a
    tensor or throws what shape resolution or the location check throw,
    nothing more. *)
Theorem calls_after_finalize_proceed
    (sizeof_T : size_type) (name : string) (memory_type : MemoryType)
    (device_id : device_id_t) (m : Machine) :
  let m' := snd (finalize m) in
  fst (get_output sizeof_T name memory_type device_id m')
  = fst (get_output sizeof_T name memory_type device_id m)
  /\ fst (get_input_shape name m') = fst (get_input_shape name m)
  /\ (forall e,
        fst (get_input_shape name m) = inl e ->
        fst (get_input sizeof_T name memory_type device_id m') = inl e)
  /\ (forall shape,
        fst (get_input_shape name m) = inr shape ->
        let reply :=
          collector_reply m' name (size_bytes sizeof_T shape)
            [(memory_type, device_id)] in
        fst (get_input sizeof_T name memory_type device_id m')
        = if negb (MemoryType_eqb (reported_mem_type reply) memory_type)
             || negb (Z.eqb (reported_device_id reply) device_id)
          then inl wrong_location
          else inr (mkTensor shape
                      (Buffer_view (raw_buffer reply) (reported_bytes reply)
                         (reported_mem_type reply) (stream_ (self m))))).
Proof.
  intros m'.
  destruct (after_frame CallFinalize m) as (Hreq & Hmodel & Hstream).
  simpl in Hreq, Hmodel, Hstream. fold m' in Hreq, Hmodel, Hstream.
  assert (Hshape : fst (get_input_shape name m')
                   = fst (get_input_shape name m)).
  { rewrite !get_input_shape_run. simpl. now rewrite Hreq. }
  split; [|split; [exact Hshape|split]].
  - rewrite !get_output_run, Hmodel, Hstream.
    destruct (FindBatchOutput _ name) as [bo|]; [|reflexivity].
    destruct (mapE narrow (OutputShape bo)); [reflexivity|].
    simpl. destruct (allocate _ _ _ _); reflexivity.
  - intros e He. rewrite <- Hshape in He.
    now rewrite (get_input_shape_error _ _ _ _ _ _ He).
  - intros shape Hs. rewrite <- Hshape in Hs.
    rewrite <- Hstream. now apply get_input_run.
Qed.

End BatchProperties.

(** * The properties on the concrete serving layer *)

Lemma get_input_empty_batch_size_bytes_demo :
  fst (get_input_shape "x" Demo.batch0) = inr []
  /\ size_bytes 4 [] = 4
  /\ size_bytes 4 [] <> 0
  /\ trace (snd (get_input 4 "x" DeviceMemory 0%Z Demo.batch0))
     = trace Demo.batch0 ++ [EvProcessTensor "x" 4 [(DeviceMemory, 0%Z)]].
Proof.
  apply (get_input_empty_batch_size_bytes 4 "x" DeviceMemory 0%Z Demo.batch0).
  - reflexivity.
  - split; reflexivity.
Defined.



Lemma get_input_sums_batch_axis_demo :
  exists shape,
    fst (get_input_shape "x" Demo.batch3) = inr shape
    /\ shape = [6; 4]
    /\ forall t,
         fst (get_input 4 "x" DeviceMemory 0%Z Demo.batch3) = inr t ->
         tensor_shape t = shape.
Proof.
  destruct (get_input_sums_batch_axis 4 "x" DeviceMemory 0%Z Demo.batch3
              [[2; 4]; [1; 4]; [3; 4]])
    as (shape & Hres & _ & _ & Hshape & Hret & _).
  - repeat constructor.
  - intros s1 s2 H1 H2. simpl in H1, H2.
    repeat match goal with
           | H : _ \/ _ |- _ => destruct H
           | H : False |- _ => contradiction
           end; subst; reflexivity.
  - exists shape. split; [exact Hres|]. split; [|exact Hret].
    apply Hshape. discriminate.
Defined.

Lemma get_input_incompatible_shapes_demo :
  exists k,
    get_input 4 "ragged" DeviceMemory 0%Z Demo.batch3
    = (inl (IncompatibleShape k), Demo.batch3)
    /\ (k < 3)%nat.
Proof.
  apply (get_input_incompatible_shapes 4 "ragged" DeviceMemory 0%Z
           Demo.batch3 [[2; 4]; [1; 5]; [3; 4]] 0 1 [2; 4] [1; 5]).
  - repeat constructor.
  - reflexivity.
  - reflexivity.
  - discriminate.
Defined.

Lemma get_input_buffer_length_demo :
  fst (get_input 4 "x" DeviceMemory 0%Z Demo.batch3)
  = inr (mkTensor [6; 4] (Buffer_view 4096 96 DeviceMemory 7))
  /\ buffer_size (Buffer_view 4096 96 DeviceMemory 7) = 4 * product [6; 4].
Proof.
  split; [reflexivity|].
  apply (get_input_buffer_length 4 "x" DeviceMemory 0%Z Demo.batch3
           (mkTensor [6; 4] (Buffer_view 4096 96 DeviceMemory 7)) eq_refl);
    reflexivity.
Defined.

(** C8 as stated fails: for the batch without requests [get_input<T>] with
    [sizeof(T) = 4] returns a tensor of shape [[]], whose product of
    dimensions times 4 is 4, over the buffer of 0 bytes that the collector
    reported. *)
Lemma get_input_buffer_length_unchecked :
  exists t,
    fst (get_input 4 "x" DeviceMemory 0%Z Demo.batch0) = inr t
    /\ product (tensor_shape t) * 4 = 4
    /\ buffer_size (tensor_buffer t) = 0
    /\ product (tensor_shape t) * 4 <> buffer_size (tensor_buffer t).
Proof.
  eexists. split; [reflexivity|]. simpl.
  split; [reflexivity|]. split; [reflexivity|]. discriminate.
Qed.

Lemma get_output_metadata_shape_demo :
  exists t,
    fst (get_output 4 "y" DeviceMemory 0%Z Demo.batch3) = inr t
    /\ output_shape t = [2]
    /\ (product [2] < SIZE_MODULUS ->
        buffer_size (output_buffer t) = product [2]).
Proof.
  apply (proj2 (get_output_metadata_shape 4 "y" DeviceMemory 0%Z Demo.batch3)
           {| OutputShape := [2%Z] |} [2] 8192).
  - reflexivity.
  - repeat constructor.
  - reflexivity.
Defined.

(** C2 as stated fails: the three requests carry a total batch of 6 on
    input [x], the metadata declares output [y] with shape [2], and
    [get_output] returns shape [2] over 2 elements, not [6,2] over 12. *)
Lemma get_output_not_scaled_by_batch_size :
  fst (get_input_shape "x" Demo.batch3) = inr [6; 4]
  /\ exists t,
       fst (get_output 4 "y" DeviceMemory 0%Z Demo.batch3) = inr t
       /\ output_shape t = [2]
       /\ output_shape t <> [6; 2]
       /\ buffer_size (output_buffer t) = 2
       /\ buffer_size (output_buffer t) <> product [6; 2].
Proof.
  split; [reflexivity|]. eexists. split; [reflexivity|]. simpl.
  repeat split; discriminate.
Qed.

Lemma finalize_synchronizes_demo :
  synchronizations (trace (snd (finalize Demo.batch3_pending))) = 1%nat
  /\ synchronizations
       (trace (snd (finalize
                      (after_all [CallGetInput 4 "x" DeviceMemory 0%Z;
                                  CallStream] Demo.batch3)))) = 0%nat.
Proof.
  split.
  - apply (proj1 (proj2 (proj1 finalize_synchronizes_iff_work_enqueued
                           Demo.batch3_pending))).
    reflexivity.
  - apply (proj2 finalize_synchronizes_iff_work_enqueued
             Demo.model Demo.instance [1; 2; 3] [2] 8 7 Demo.batch3).
    + intros responses. reflexivity.
    + reflexivity.
    + reflexivity.
Defined.

Lemma responses_length_invariant_demo :
  List.length (responses_ (self Demo.batch3)) = 3%nat
  /\ List.length (requests_ (self Demo.batch3)) = 3%nat
  /\ forall calls,
       List.length (responses_ (self (after_all calls Demo.batch3))) = 3%nat
       /\ List.length (requests_ (self (after_all calls Demo.batch3))) = 3%nat.
Proof.
  apply (responses_length_invariant Demo.model Demo.instance [1; 2; 3] [2] 8 7
           Demo.batch3).
  - intros col rs name size allowed. simpl. unfold Demo.process_tensor.
    destruct (hd (HostMemory, 0%Z) allowed). reflexivity.
  - intros r rs. reflexivity.
  - reflexivity.
Defined.

Lemma calls_after_finalize_proceed_demo :
  fst (get_output 4 "y" DeviceMemory 0%Z (snd (finalize Demo.batch3_pending)))
  = fst (get_output 4 "y" DeviceMemory 0%Z Demo.batch3_pending).
Proof.
  apply (proj1 (calls_after_finalize_proceed 4 "y" DeviceMemory 0%Z
                  Demo.batch3_pending)).
Defined.

(** C6 as stated fails: after [finalize] on the batch of three requests,
    [get_output] and [get_input] return their tensors; neither throws. *)
Lemma calls_after_finalize_succeed :
  fst (get_output 4 "y" DeviceMemory 0%Z (snd (finalize Demo.batch3)))
  = inr (mkOutputTensor [2]
           (mkBuffer 8192 true 2 DeviceMemory (Some 0%Z) 7) "y")
  /\ fst (get_input 4 "x" DeviceMemory 0%Z (snd (finalize Demo.batch3)))
     = inr (mkTensor [6; 4] (Buffer_view 4096 96 DeviceMemory 7))
  /\ fst (get_output 4 "y" DeviceMemory 0%Z (snd (finalize Demo.batch3)))
     <> inl ContractViolation
  /\ fst (get_input 4 "x" DeviceMemory 0%Z (snd (finalize Demo.batch3)))
     <> inl ContractViolation.
Proof. repeat split; try reflexivity; discriminate. Qed.

(** * Further properties of the batch methods *)

Section BatchExtras.
Context {api : TritonBackend}.

(** ** What each call adds to the log *)

Lemma after_trace (c : Call) (m : Machine) :
  match c with
  | CallGetInput sz name mt dev =>
      trace (after c m) = trace m
      \/ exists shape,
           trace (after c m)
           = trace m ++ [EvProcessTensor name (size_bytes sz shape) [(mt, dev)]]
  | CallGetOutput sz name mt dev =>
      trace (after c m) = trace m
      \/ exists n, trace (after c m) = trace m ++ [EvAllocate n mt dev]
  | CallStream => trace (after c m) = trace m
  | CallFinalize =>
      trace (after c m)
      = trace m ++ EvResponderFinalize
          :: (if fst (fst (Finalize (responder_ (self m))
                             (responses_ (self m))))
              then [EvStreamSynchronize (stream_ (self m))] else [])
  end.
Proof.
  destruct c as [sz name mt dev|sz name mt dev| |]; simpl.
  - destruct (get_input_state sz name mt dev m)
      as [(e & _ & ->)|(shape & _ & ->)]; [auto|].
    destruct (collector_ProcessTensor_run name (size_bytes sz shape)
                [(mt, dev)] m) as (m' & -> & Htr & _).
    right. exists shape. exact Htr.
  - rewrite get_output_run.
    destruct (FindBatchOutput _ name) as [bo|]; [|auto].
    destruct (mapE narrow (OutputShape bo)) as [e|shape]; [auto|].
    right. exists (reduce_mul shape).
    simpl. destruct (allocate _ _ _ _); reflexivity.
  - reflexivity.
  - pose proof (finalize_run m) as H. simpl in H.
    destruct (Finalize _ _) as [[need r'] rs']. rewrite H.
    destruct need; reflexivity.
Qed.

Lemma responder_finalizations_app t1 t2 :
  responder_finalizations (t1 ++ t2)
  = (responder_finalizations t1 + responder_finalizations t2)%nat.
Proof.
  unfold responder_finalizations. now rewrite filter_app, length_app.
Qed.

(** ** The stream *)

(** X1 (lines 62, 109-111): on a batch constructed with stream [s],
    [stream()] returns [s] after any sequence of method calls, and leaves
    the batch as it found it. *)
Theorem stream_returns_construction_stream
    (model_state : ModelState) (instance_state : ModelInstanceState)
    (raw_requests : list Request) (output_shape : list size_type)
    (max_batch_size : size_type) (s : cudaStream_t) (m0 : Machine)
    (calls : list Call) :
  Batch_new model_state instance_state raw_requests output_shape
    max_batch_size s = inr m0 ->
  stream (after_all calls m0) = (inr s, after_all calls m0).
Proof.
  intros Hnew. unfold Batch_new in Hnew.
  destruct (construct_responses raw_requests); [discriminate|].
  injection Hnew as <-.
  unfold stream, bind, this, ret. simpl.
  match goal with
  | |- context [after_all calls ?m] =>
      destruct (after_all_frame calls m) as (_ & _ & ->)
  end.
  reflexivity.
Qed.

(** ** Effects of [get_input] and [get_output] *)

(** X2 (lines 66-98): once the shape is resolved, [get_input] makes exactly
    one [ProcessTensor] call, for [sizeof(T)] times the product of the
    shape in [size_t] arithmetic and with the requested location as the
    only allowed one; the batch is left with the collector and the
    responses as that call returned them, whether [get_input] then returns
    the tensor or throws the wrong-location error. *)
Theorem get_input_collector_effect
    (sizeof_T : size_type) (name : string) (memory_type : MemoryType)
    (device_id : device_id_t) (m : Machine) (shape : Shape) :
  fst (get_input_shape name m) = inr shape ->
  let b := self m in
  let out :=
    ProcessTensor (collector_ b) (responses_ b) name
      (size_bytes sizeof_T shape) [(memory_type, device_id)] in
  snd (get_input sizeof_T name memory_type device_id m)
  = mkMachine
      (mkBatch (model_state_ b) (instance_state_ b) (requests_ b) (snd out)
         (snd (fst out)) (responder_ b) (stream_ b))
      (trace m
       ++ [EvProcessTensor name (size_bytes sizeof_T shape)
             [(memory_type, device_id)]]).
Proof.
  intros Hshape. simpl.
  unfold get_input, bind.
  rewrite get_input_shape_run in Hshape |- *. simpl in Hshape.
  rewrite Hshape. unfold collector_ProcessTensor, this.
  destruct (ProcessTensor _ _ _ _ _) as [[reply c'] rs']. simpl.
  destruct (negb _ || negb _); reflexivity.
Qed.

(** X3 (lines 100-107, 138-143): [get_output] leaves the batch object as it
    found it: it calls neither the collector nor the responder.  Its only
    outside call is the allocation of the buffer, made once when the shape
    was read, for the number of elements of the tensor it returns. *)
Theorem get_output_keeps_batch
    (sizeof_T : size_type) (name : string) (memory_type : MemoryType)
    (device_id : device_id_t) (m : Machine) :
  let r := get_output sizeof_T name memory_type device_id m in
  self (snd r) = self m
  /\ (trace (snd r) = trace m
      \/ exists n,
           trace (snd r) = trace m ++ [EvAllocate n memory_type device_id])
  /\ (forall t,
        fst r = inr t ->
        trace (snd r)
        = trace m
          ++ [EvAllocate (buffer_size (output_buffer t)) memory_type
                device_id]).
Proof.
  simpl. rewrite get_output_run.
  destruct (FindBatchOutput _ name) as [bo|].
  2:{ simpl. repeat split; auto. discriminate. }
  destruct (mapE narrow (OutputShape bo)) as [e|shape].
  { simpl. repeat split; auto. discriminate. }
  simpl. destruct (allocate _ _ _ _) as [e|data]; simpl.
  - repeat split; eauto. discriminate.
  - repeat split; eauto. intros t [= <-]. reflexivity.
Qed.

Lemma mapE_first_failure {A B} (f : A -> Exception + B) pre a post bs e :
  Forall2 (fun x y => f x = inr y) pre bs ->
  f a = inl e ->
  mapE f (pre ++ a :: post) = inl e.
Proof.
  intros Hpre Ha. induction Hpre as [|x y pre bs Hx _ IH]; simpl.
  - now rewrite Ha.
  - now rewrite Hx, IH.
Qed.

(** X4 (lines 102, 138-143): when a coordinate of the declared output shape
    does not narrow to [size_t] and those before it do, [get_output] throws
    the exception of that coordinate; nothing is allocated and the batch
    and the log stay as they were. *)
Theorem get_output_narrowing_failure
    (sizeof_T : size_type) (name : string) (memory_type : MemoryType)
    (device_id : device_id_t) (m : Machine) (triton_result : BatchOutput)
    (pre post : list Z) (coord : Z) (narrowed : list size_type)
    (e : Exception) :
  FindBatchOutput (model_state_ (self m)) name = Some triton_result ->
  OutputShape triton_result = pre ++ coord :: post ->
  Forall2 (fun c d => narrow c = inr d) pre narrowed ->
  narrow coord = inl e ->
  get_output sizeof_T name memory_type device_id m = (inl e, m).
Proof.
  intros Hfind Hshape Hpre Hcoord.
  rewrite get_output_run, Hfind, Hshape.
  now rewrite (mapE_first_failure narrow pre coord post narrowed e).
Qed.

(** ** Sizes computed in [size_t] *)

Lemma product_permutation shape shape' :
  Permutation shape shape' -> product shape = product shape'.
Proof.
  induction 1 as [|d l l' _ IH|d d' l|l l' l'' _ IH1 _ IH2]; simpl.
  - reflexivity.
  - now rewrite IH.
  - lia.
  - congruence.
Qed.

Lemma product_zero shape : In 0 shape -> product shape = 0.
Proof.
  induction shape as [|d shape IH]; simpl; [contradiction|].
  intros [->|H]; [reflexivity|]. rewrite (IH H). lia.
Qed.

(** X5 (lines 68, 103-104): [std::reduce] may multiply the dimensions in
    any order; the element count and the byte length computed from a shape
    do not depend on the order of its dimensions. *)
Theorem reduce_mul_permutation (shape shape' : Shape) (sizeof_T : size_type) :
  Permutation shape shape' ->
  reduce_mul shape = reduce_mul shape'
  /\ size_bytes sizeof_T shape = size_bytes sizeof_T shape'.
Proof.
  intros Hperm. apply product_permutation in Hperm.
  rewrite !size_bytes_product, !reduce_mul_product, Hperm. auto.
Qed.

(** X6 (lines 68, 86-91, 103-105): a shape with a dimension of size zero has
    zero elements and zero bytes: [get_input] asks the collector for 0
    bytes, and the buffer of a tensor returned by [get_output] has size
    0. *)
Theorem zero_dimension_gives_empty_buffer
    (sizeof_T : size_type) (name : string) (memory_type : MemoryType)
    (device_id : device_id_t) (m : Machine) :
  (forall shape,
     In 0 shape ->
     reduce_mul shape = 0 /\ size_bytes sizeof_T shape = 0)
  /\ (forall shape,
        fst (get_input_shape name m) = inr shape ->
        In 0 shape ->
        trace (snd (get_input sizeof_T name memory_type device_id m))
        = trace m ++ [EvProcessTensor name 0 [(memory_type, device_id)]])
  /\ (forall t,
        fst (get_output sizeof_T name memory_type device_id m) = inr t ->
        In 0 (output_shape t) ->
        buffer_size (output_buffer t) = 0).
Proof.
  assert (Hzero : forall shape, In 0 shape ->
            reduce_mul shape = 0 /\ size_bytes sizeof_T shape = 0).
  { intros shape Hin.
    rewrite size_bytes_product, reduce_mul_product, (product_zero _ Hin).
    rewrite N.mul_0_r. split; reflexivity. }
  split; [exact Hzero|]. split.
  - intros shape Hshape Hin.
    destruct (get_input_state sizeof_T name memory_type device_id m)
      as [(e & He & _)|(shape' & Hs & ->)]; [congruence|].
    assert (shape' = shape) by congruence. subst shape'.
    destruct (collector_ProcessTensor_run name (size_bytes sizeof_T shape)
                [(memory_type, device_id)] m) as (m' & -> & Htr & _).
    simpl. rewrite Htr. now rewrite (proj2 (Hzero shape Hin)).
  - intros t Ht Hin. rewrite get_output_run in Ht.
    destruct (FindBatchOutput _ name) as [bo|]; [|discriminate].
    destruct (mapE narrow (OutputShape bo)) as [e|shape]; [discriminate|].
    simpl in Ht. destruct (allocate _ _ _ _); [discriminate|].
    injection Ht as <-. simpl in *. apply Hzero. exact Hin.
Qed.

(** X7 (lines 103-105): the element count of an output buffer is the
    product of the shape reduced modulo 2^64.  It never exceeds the product,
    and when the product does not fit [size_t] the buffer [get_output]
    returns holds fewer elements than the shape of its tensor has. *)
Theorem get_output_buffer_wraps
    (sizeof_T : size_type) (name : string) (memory_type : MemoryType)
    (device_id : device_id_t) (m : Machine) (t : OutputTensor) :
  fst (get_output sizeof_T name memory_type device_id m) = inr t ->
  buffer_size (output_buffer t) = product (output_shape t) mod SIZE_MODULUS
  /\ buffer_size (output_buffer t) <= product (output_shape t)
  /\ (SIZE_MODULUS <= product (output_shape t) ->
      buffer_size (output_buffer t) < product (output_shape t)).
Proof.
  intros Ht. rewrite get_output_run in Ht.
  destruct (FindBatchOutput _ name) as [bo|]; [|discriminate].
  destruct (mapE narrow (OutputShape bo)) as [e|shape]; [discriminate|].
  simpl in Ht. destruct (allocate _ _ _ _); [discriminate|].
  injection Ht as <-. simpl. rewrite reduce_mul_product. unfold wrap.
  split; [reflexivity|]. split.
  - apply N.Div0.mod_le.
  - intros Hbig.
    pose proof (N.mod_lt (product shape) SIZE_MODULUS SIZE_MODULUS_nonzero).
    lia.
Qed.

(** ** [finalize] *)

(** X8 (lines 113-119): [finalize] returns normally when the responder
    reports no enqueued work, and otherwise returns or throws as
    [cuda_check] decides on the status of [cudaStreamSynchronize]; in every
    case the batch is left with the responder and the responses as
    [Finalize] returned them, and with its collector, requests and stream
    untouched. *)
Theorem finalize_outcome (m : Machine) :
  let b := self m in
  let out := Finalize (responder_ b) (responses_ b) in
  fst (finalize m)
  = (if fst (fst out)
     then match cuda_failure (cudaStreamSynchronize (stream_ b)) with
          | Some e => inl e
          | None => inr tt
          end
     else inr tt)
  /\ self (snd (finalize m))
     = mkBatch (model_state_ b) (instance_state_ b) (requests_ b) (snd out)
         (collector_ b) (snd (fst out)) (stream_ b).
Proof.
  pose proof (finalize_run m) as H. simpl in H |- *.
  destruct (Finalize _ _) as [[need r'] rs']. rewrite H.
  destruct need; split; reflexivity.
Qed.

(** X11 (lines 65-119): [finalize] is the only method that synchronizes the
    stream, and it does so at most once per call: over any sequence of
    calls the number of synchronizations never decreases and grows by at
    most the number of [finalize] calls in the sequence. *)
Theorem only_finalize_synchronizes (calls : list Call) (m : Machine) :
  (synchronizations (trace m)
   <= synchronizations (trace (after_all calls m)))%nat
  /\ (synchronizations (trace (after_all calls m))
      <= synchronizations (trace m) + finalize_calls calls)%nat.
Proof.
  unfold after_all, finalize_calls. revert m.
  induction calls as [|c calls IH]; intros m; simpl; [lia|].
  destruct (IH (after c m)) as [IHlo IHhi].
  assert (Hstep :
    (synchronizations (trace m) <= synchronizations (trace (after c m))
     <= synchronizations (trace m)
        + (if is_finalize_call c then 1 else 0))%nat).
  { pose proof (after_trace c m) as Htr.
    destruct c as [sz name mt dev|sz name mt dev| |]; simpl in Htr |- *.
    - destruct Htr as [->|(shape & ->)]; [lia|].
      rewrite synchronizations_app. cbn. lia.
    - destruct Htr as [->|(n & ->)]; [lia|].
      rewrite synchronizations_app. cbn. lia.
    - lia.
    - rewrite Htr, synchronizations_app.
      destruct (fst (fst (Finalize _ _))); cbn; lia. }
  destruct (is_finalize_call c); simpl in *; lia.
Qed.

(** X12 (lines 113-119): nothing guards against finalizing twice: every
    [finalize] call in a sequence of calls reaches [responder_->Finalize()],
    and no other method does. *)
Theorem every_finalize_reaches_responder (calls : list Call) (m : Machine) :
  responder_finalizations (trace (after_all calls m))
  = (responder_finalizations (trace m) + finalize_calls calls)%nat.
Proof.
  unfold after_all, finalize_calls. revert m.
  induction calls as [|c calls IH]; intros m; simpl; [lia|].
  rewrite IH.
  assert (Hstep :
    responder_finalizations (trace (after c m))
    = (responder_finalizations (trace m)
       + (if is_finalize_call c then 1 else 0))%nat).
  { pose proof (after_trace c m) as Htr.
    destruct c as [sz name mt dev|sz name mt dev| |]; simpl in Htr |- *.
    - destruct Htr as [->|(shape & ->)]; [lia|].
      rewrite responder_finalizations_app. cbn. lia.
    - destruct Htr as [->|(n & ->)]; [lia|].
      rewrite responder_finalizations_app. cbn. lia.
    - lia.
    - rewrite Htr, responder_finalizations_app.
      destruct (fst (fst (Finalize _ _))); cbn; lia. }
  rewrite Hstep. destruct (is_finalize_call c); simpl; lia.
Qed.

(** ** Stability over the lifetime of the batch *)

(** X9 (lines 130-136): the shape resolved for an input name depends on the
    request list alone: resolving it changes nothing, and after any
    sequence of method calls it gives the result it gave before. *)
Theorem get_input_shape_stable
    (name : string) (calls : list Call) (m : Machine) :
  get_input_shape name (after_all calls m)
  = (fst (get_input_shape name m), after_all calls m).
Proof.
  rewrite !get_input_shape_run. simpl.
  destruct (after_all_frame calls m) as (-> & _). reflexivity.
Qed.

Lemma get_output_shape_run name (m : Machine) :
  get_output_shape name m =
  (match FindBatchOutput (model_state_ (self m)) name with
   | None => inl NullDereference
   | Some triton_result => mapE narrow (OutputShape triton_result)
   end, m).
Proof.
  unfold get_output_shape, bind, this, throw, lift.
  destruct (FindBatchOutput _ name); reflexivity.
Qed.

(** X10 (lines 100-107, 138-143): the shape read for an output name
    depends on the model metadata alone: reading it changes nothing, after
    any sequence of method calls it gives the result it gave before, and a
    tensor that [get_output] returns then has that shape, with a buffer of
    its [size_t] product of elements. *)
Theorem get_output_shape_stable
    (name : string) (calls : list Call) (m : Machine) :
  get_output_shape name (after_all calls m)
  = (fst (get_output_shape name m), after_all calls m)
  /\ forall sizeof_T memory_type device_id t,
       fst (get_output sizeof_T name memory_type device_id
              (after_all calls m)) = inr t ->
       fst (get_output_shape name m) = inr (output_shape t)
       /\ buffer_size (output_buffer t) = reduce_mul (output_shape t).
Proof.
  rewrite !get_output_shape_run. simpl.
  destruct (after_all_frame calls m) as (_ & Hmodel & _).
  split; [now rewrite Hmodel|].
  intros sz mt dev t Ht. rewrite get_output_run, Hmodel in Ht.
  destruct (FindBatchOutput _ name) as [bo|]; [|discriminate].
  destruct (mapE narrow (OutputShape bo)) as [e|shape]; [discriminate|].
  simpl in Ht. destruct (allocate _ _ _ _); [discriminate|].
  injection Ht as <-. simpl. auto.
Qed.

(** X13 (lines 62, 86-91, 105-106): every buffer the batch hands out is
    bound to the stream the batch was constructed with: the buffer of an
    input tensor is a non-owning view, the buffer of an output tensor is an
    owning buffer on the requested device, and the output tensor records
    the output name. *)
Theorem buffers_bound_to_batch_stream
    (model_state : ModelState) (instance_state : ModelInstanceState)
    (raw_requests : list Request) (output_shape : list size_type)
    (max_batch_size : size_type) (s : cudaStream_t) (m0 : Machine)
    (calls : list Call) (sizeof_T : size_type) (name : string)
    (memory_type : MemoryType) (device_id : device_id_t) :
  Batch_new model_state instance_state raw_requests output_shape
    max_batch_size s = inr m0 ->
  (forall t,
     fst (get_input sizeof_T name memory_type device_id (after_all calls m0))
     = inr t ->
     buffer_stream (tensor_buffer t) = s
     /\ buffer_owning (tensor_buffer t) = false)
  /\ (forall t,
        fst (get_output sizeof_T name memory_type device_id
               (after_all calls m0)) = inr t ->
        buffer_stream (output_buffer t) = s
        /\ buffer_owning (output_buffer t) = true
        /\ buffer_device (output_buffer t) = Some device_id
        /\ output_name t = name).
Proof.
  intros Hnew. unfold Batch_new in Hnew.
  destruct (construct_responses raw_requests); [discriminate|].
  injection Hnew as <-.
  match goal with
  | |- context [after_all calls ?m0] =>
      destruct (after_all_frame calls m0) as (_ & _ & Hstream);
      simpl in Hstream; set (m := after_all calls m0) in *
  end.
  split.
  - intros t Ht.
    destruct (fst (get_input_shape name m)) as [e|shape] eqn:Hshape.
    { rewrite (get_input_shape_error _ _ _ _ _ _ Hshape) in Ht.
      discriminate. }
    rewrite (get_input_run _ _ _ _ _ _ Hshape) in Ht.
    destruct (negb _ || negb _); [discriminate|].
    injection Ht as <-. simpl. auto.
  - intros t Ht. rewrite get_output_run in Ht.
    destruct (FindBatchOutput _ name) as [bo|]; [|discriminate].
    destruct (mapE narrow (OutputShape bo)); [discriminate|].
    simpl in Ht. destruct (allocate _ _ _ _); [discriminate|].
    injection Ht as <-. simpl. auto.
Qed.

End BatchExtras.

(** * The further properties on the concrete serving layer *)

Lemma stream_returns_construction_stream_demo :
  fst (stream (after_all [CallFinalize; CallGetOutput 4 "y" DeviceMemory 0%Z]
                 Demo.batch3)) = inr 7.
Proof.
  rewrite (stream_returns_construction_stream Demo.model Demo.instance
             [1; 2; 3] [2] 8 7 Demo.batch3 _ eq_refl).
  reflexivity.
Defined.

Lemma get_input_collector_effect_demo :
  fst (get_input 4 "misplaced" DeviceMemory 0%Z Demo.batch3)
  = inl wrong_location
  /\ trace (snd (get_input 4 "misplaced" DeviceMemory 0%Z Demo.batch3))
     = [EvProcessTensor "misplaced" 48 [(DeviceMemory, 0%Z)]].
Proof.
  split; [reflexivity|].
  rewrite (get_input_collector_effect 4 "misplaced" DeviceMemory 0%Z
             Demo.batch3 [3; 4] eq_refl).
  reflexivity.
Defined.

Lemma get_output_narrowing_failure_demo :
  get_output 4 "z" HostMemory 0%Z Demo.batch_dynamic
  = (inl (TritonException Internal "invalid narrowing"), Demo.batch_dynamic).
Proof.
  apply (get_output_narrowing_failure 4 "z" HostMemory 0%Z Demo.batch_dynamic
           {| OutputShape := [2; -1; 3]%Z |} [2%Z] [3%Z] (-1)%Z [2]).
  - reflexivity.
  - reflexivity.
  - repeat constructor.
  - reflexivity.
Defined.

Lemma reduce_mul_permutation_demo :
  reduce_mul [6; 4] = reduce_mul [4; 6]
  /\ size_bytes 4 [6; 4] = size_bytes 4 [4; 6].
Proof.
  apply (reduce_mul_permutation [6; 4] [4; 6] 4). apply perm_swap.
Defined.

Lemma zero_dimension_gives_empty_buffer_demo :
  reduce_mul [3; 0; 4] = 0 /\ size_bytes 4 [3; 0; 4] = 0.
Proof.
  apply (proj1 (zero_dimension_gives_empty_buffer 4 "x" DeviceMemory 0%Z
                  Demo.batch3)).
  simpl. auto.
Defined.

Lemma get_output_buffer_wraps_demo :
  fst (get_output 4 "big" HostMemory 0%Z Demo.batch_huge)
  = inr (mkOutputTensor [4294967296; 4294967296]
           (mkBuffer 8192 true 0 HostMemory (Some 0%Z) 7) "big")
  /\ 0 < product [4294967296; 4294967296].
Proof.
  split; [reflexivity|].
  apply (proj2 (proj2 (get_output_buffer_wraps 4 "big" HostMemory 0%Z
                         Demo.batch_huge
                         (mkOutputTensor [4294967296; 4294967296]
                            (mkBuffer 8192 true 0 HostMemory (Some 0%Z) 7)
                            "big")
                         eq_refl))).
  apply N.leb_le. reflexivity.
Defined.

Lemma buffers_bound_to_batch_stream_demo :
  buffer_stream (Buffer_view 4096 96 DeviceMemory 7) = 7
  /\ buffer_owning (Buffer_view 4096 96 DeviceMemory 7) = false.
Proof.
  apply (proj1 (buffers_bound_to_batch_stream Demo.model Demo.instance
                  [1; 2; 3] [2] 8 7 Demo.batch3 [CallFinalize] 4 "x"
                  DeviceMemory 0%Z eq_refl)
           (mkTensor [6; 4] (Buffer_view 4096 96 DeviceMemory 7))).
  reflexivity.
Defined.
